(** * Endpoints change tracking of the proxy package

    A shallow embedding of [vendor/k8s.io/kubernetes/pkg/proxy/endpoints.go]:
    the endpoint value, the change tracker ([EndpointSliceUpdate],
    [checkoutChanges], [checkoutTriggerTimes], [getLastChangeTriggerTime]),
    the endpoints map ([Update], [merge], [unmerge],
    [getLocalReadyEndpointIPs], [LocalReadyEndpoints]) and
    [detectStaleConntrackEntries].

    Go maps are [gmap]s, Go slices are lists (a nil slice and an empty one
    are both [[]]; the code only ranges over them and takes their length).
    Effects on the process (the klog stream, the metrics registry, a nil
    pointer dereference) are threaded through a small state-and-panic
    monad. *)

From Stdlib Require Import ZArith.
From stdpp Require Import base option list gmap sets strings numbers.

(* stdpp's solvers clear hypotheses by name; the notes about names that
   are not there are of no interest here. *)
#[local] Set Warnings "-clear-no-such-hyp".

Open Scope Z_scope.

(** ** Imported packages: the parts of them the file uses *)

Module types.
(** [types.NamespacedName] of k8s.io/apimachinery. *)
Record NamespacedName := mkNamespacedName {
  Namespace : string;
  Name : string
}.

#[global] Instance NamespacedName_eq_dec : EqDecision NamespacedName.
Proof. solve_decision. Defined.

#[global] Instance NamespacedName_countable : Countable NamespacedName.
Proof.
  refine (inj_countable' (λ n, (Namespace n, Name n))
                         (λ p, mkNamespacedName p.1 p.2) _).
  by intros [].
Defined.
End types.

Module v1.
(** [v1.Protocol] is a string type in k8s.io/api/core/v1; the constants
    are the ones that package declares. *)
Definition Protocol := string.
Definition ProtocolTCP : Protocol := "TCP".
Definition ProtocolUDP : Protocol := "UDP".
Definition ProtocolSCTP : Protocol := "SCTP".

Definition EndpointsLastChangeTriggerTime : string :=
  "endpoints.kubernetes.io/last-change-trigger-time".
End v1.

Module discovery.
(** [discovery.AddressType] of k8s.io/api/discovery/v1, a string type. *)
Definition AddressType := string.
Definition AddressTypeIPv4 : AddressType := "IPv4".
Definition AddressTypeIPv6 : AddressType := "IPv6".
Definition AddressTypeFQDN : AddressType := "FQDN".
End discovery.

Module time.
(** A [time.Time] instant, as the number of nanoseconds since the zero
    Time (January 1, year 1, 00:00:00 UTC).  Instants before it exist. *)
Definition Time := Z.
Definition zero : Time := 0.
Definition IsZero (t : Time) : bool := t =? 0.
Definition After (t u : Time) : bool := u <? t.
End time.

Module klog.
(** One call of the logger: [V n] is [klog.V(n).InfoS], [Info] is
    [klog.InfoS], [Error] is [klog.ErrorS].  Only the message is kept;
    the key/value pairs are not. *)
Inductive Severity := V (n : nat) | Info | Error.
Record Entry := mkEntry { severity : Severity; msg : string }.

#[global] Instance Severity_eq_dec : EqDecision Severity.
Proof. solve_decision. Defined.
#[global] Instance Entry_eq_dec : EqDecision Entry.
Proof. solve_decision. Defined.
End klog.

Module metrics.
(** The two collectors of pkg/proxy/metrics the file touches. *)
Record Registry := mkRegistry {
  EndpointChangesTotal : Z;
  EndpointChangesPending : Z
}.

#[global] Instance Registry_eq_dec : EqDecision Registry.
Proof. solve_decision. Defined.
End metrics.

(** ** The process: log stream and metrics registry *)

Record World := mkWorld {
  log : list klog.Entry;
  registry : metrics.Registry
}.

#[global] Instance World_eq_dec : EqDecision World.
Proof. solve_decision. Defined.

(** What a call does: it returns, or the goroutine panics. *)
Inductive Outcome (A : Type) :=
| Return (a : A) (w : World)
| Panic (reason : string).
Arguments Return {A} a w.
Arguments Panic {A} reason.

Definition M (A : Type) : Type := World → Outcome A.

#[global] Instance M_ret : MRet M := λ A a w, Return a w.

#[global] Instance M_bind : MBind M := λ A B k m w,
  match m w with
  | Return a w' => k a w'
  | Panic r => Panic r
  end.

Definition panic {A} (reason : string) : M A := λ _, Panic reason.

(** [p.f] on a pointer [p]: a nil pointer panics. *)
Definition deref {A} (p : option A) : M A :=
  match p with
  | Some a => mret a
  | None => panic "invalid memory address or nil pointer dereference"
  end.

Definition klog_write (s : klog.Severity) (m : string) : M unit :=
  λ w, Return tt (mkWorld (log w ++ [klog.mkEntry s m]) (registry w)).

Definition EndpointChangesTotal_Inc : M unit :=
  λ w, Return tt
    (mkWorld (log w)
       (metrics.mkRegistry
          (metrics.EndpointChangesTotal (registry w) + 1)
          (metrics.EndpointChangesPending (registry w)))).

Definition EndpointChangesPending_Inc : M unit :=
  λ w, Return tt
    (mkWorld (log w)
       (metrics.mkRegistry
          (metrics.EndpointChangesTotal (registry w))
          (metrics.EndpointChangesPending (registry w) + 1))).

Definition EndpointChangesPending_Set (v : Z) : M unit :=
  λ w, Return tt
    (mkWorld (log w)
       (metrics.mkRegistry (metrics.EndpointChangesTotal (registry w)) v)).

(** A [for ... range] loop over a list with a loop-carried state. *)
Fixpoint forM {A S} (l : list A) (body : A → S → M S) (s : S) : M S :=
  match l with
  | [] => mret s
  | x :: l' => s' ← body x s; forM l' body s'
  end.

(** The order in which [for k, v := range m] visits a Go map is not
    specified.  A [RangeOrder] picks one: any enumeration of the entries. *)
Class RangeOrder := {
  range : ∀ {K} `{Countable K} {V}, gmap K V → list (K * V);
  range_perm : ∀ {K} `{Countable K} {V} (m : gmap K V),
    range m ≡ₚ map_to_list m
}.

(** The enumeration stdpp exposes is one such order. *)
#[global] Instance canonical_range : RangeOrder | 100.
Proof.
  refine {| range K _ _ V m := map_to_list m |}.
  reflexivity.
Defined.

(** ** Service ports and endpoints *)

(** Modelled from the spec: [ServicePortName] is declared in types.go of
    the package, which this development does not have.  The specification
    gives it as the tuple (namespace, name, port name, protocol); the code
    reads its [NamespacedName] and [Protocol] fields and uses it as a map
    key. *)
Record ServicePortName := mkServicePortName {
  NamespacedName : types.NamespacedName;
  Port : string;
  Protocol : v1.Protocol
}.

#[global] Instance ServicePortName_eq_dec : EqDecision ServicePortName.
Proof. solve_decision. Defined.

#[global] Instance ServicePortName_countable : Countable ServicePortName.
Proof.
  refine (inj_countable' (λ s, (NamespacedName s, Port s, Protocol s))
                         (λ p, mkServicePortName p.1.1 p.1.2 p.2) _).
  by intros [].
Defined.

(** Modelled from the spec: [ServiceEndpoint], also of types.go, is the
    pair (endpoint, service port) of the stale list; its two fields are
    the ones the composite literal in [detectStaleConntrackEntries] sets
    ([SE_Endpoint] is [Endpoint], [SE_ServicePortName] is
    [ServicePortName]: both names are taken). *)
Record ServiceEndpoint := mkServiceEndpoint {
  SE_Endpoint : string;
  SE_ServicePortName : ServicePortName
}.

#[global] Instance ServiceEndpoint_eq_dec : EqDecision ServiceEndpoint.
Proof. solve_decision. Defined.

(** Modelled from the spec: the [Endpoint] interface, also of types.go, is
    the capability set (identity string, IP address, port number,
    is-local, is-ready, is-serving, is-terminating, zone hints), which
    [BaseEndpointInfo] below implements method by method ([PortNumber] is
    its [Port] method: the name is taken by the field of
    [ServicePortName]). *)
Class Endpoint (E : Type) := {
  String : E → string;
  IP : E → string;
  PortNumber : E → Z;
  IsLocal : E → bool;
  IsReady : E → bool;
  IsServing : E → bool;
  IsTerminating : E → bool;
  ZoneHints : E → gset string
}.

Record BaseEndpointInfo := mkBaseEndpointInfo {
  ip : string;
  port : Z;
  endpoint : string;
  isLocal : bool;
  ready : bool;
  serving : bool;
  terminating : bool;
  zoneHints : gset string
}.

#[global] Instance BaseEndpointInfo_Endpoint : Endpoint BaseEndpointInfo := {|
  String := endpoint;
  IP := ip;
  PortNumber := port;
  IsLocal := isLocal;
  IsReady := ready;
  IsServing := serving;
  IsTerminating := terminating;
  ZoneHints := zoneHints
|}.

Section Embedding.
Context `{!RangeOrder} {E : Type} `{!Endpoint E}.

(** [EndpointsMap] is [map[ServicePortName][]Endpoint]. *)
#[local] Abbreviation EndpointsMap := (gmap ServicePortName (list E)).

(** [m[k]] on a map of slices: the nil slice when [k] is absent. *)
Definition index (m : EndpointsMap) (k : ServicePortName) : list E :=
  default [] (m !! k).

(** The inner loop of the first half of [detectStaleConntrackEntries]:
    [deleted] starts true and the loop breaks at the first endpoint of
    the new list with the same [String()] and the same [IsServing()]. *)
Fixpoint deleted_scan (ep : E) (news : list E) : bool :=
  match news with
  | [] => true
  | n :: news' =>
      if bool_decide (String n = String ep)
         && bool_decide (IsServing n = IsServing ep)
      then false
      else deleted_scan ep news'
  end.

Definition stale_endpoint_body (newEndpointsMap : EndpointsMap)
    (svcPortName : ServicePortName) (ep : E)
    (deletedUDPEndpoints : list ServiceEndpoint) : M (list ServiceEndpoint) :=
  if negb (IsServing ep) then mret deletedUDPEndpoints
  else
    let deleted := deleted_scan ep (index newEndpointsMap svcPortName) in
    if deleted then
      klog_write (klog.V 4)
        "Deleted endpoint may have stale conntrack entries";;
      mret (deletedUDPEndpoints
              ++ [mkServiceEndpoint (String ep) svcPortName])
    else mret deletedUDPEndpoints.

Definition stale_service_body (newEndpointsMap : EndpointsMap)
    (entry : ServicePortName * list E)
    (deletedUDPEndpoints : list ServiceEndpoint) : M (list ServiceEndpoint) :=
  let '(svcPortName, epList) := entry in
  if bool_decide (Protocol svcPortName ≠ v1.ProtocolUDP)
  then mret deletedUDPEndpoints
  else forM epList (stale_endpoint_body newEndpointsMap svcPortName)
         deletedUDPEndpoints.

(** [epServing] / [oldEpServing]: the counting loops. *)
Fixpoint count_serving (epList : list E) (n : Z) : Z :=
  match epList with
  | [] => n
  | ep :: epList' =>
      count_serving epList' (if IsServing ep then n + 1 else n)
  end.

(** The number of endpoints of a list with is-serving true, as the
    specification counts them. *)
Definition serving_count (epList : list E) : Z :=
  Z.of_nat (length (filter (λ ep, IsServing ep = true) epList)).

Definition active_service_body (oldEndpointsMap : EndpointsMap)
    (entry : ServicePortName * list E)
    (newlyActiveUDPServices : list ServicePortName)
    : M (list ServicePortName) :=
  let '(svcPortName, epList) := entry in
  if bool_decide (Protocol svcPortName ≠ v1.ProtocolUDP)
  then mret newlyActiveUDPServices
  else
    let epServing := count_serving epList 0 in
    let oldEpServing :=
      count_serving (index oldEndpointsMap svcPortName) 0 in
    if (0 <? epServing) && (oldEpServing =? 0)
    then mret (newlyActiveUDPServices ++ [svcPortName])
    else mret newlyActiveUDPServices.

(** [detectStaleConntrackEntries]: the two slices passed by pointer are
    taken and given back. *)
Definition detectStaleConntrackEntries
    (oldEndpointsMap newEndpointsMap : EndpointsMap)
    (deletedUDPEndpoints : list ServiceEndpoint)
    (newlyActiveUDPServices : list ServicePortName)
    : M (list ServiceEndpoint * list ServicePortName) :=
  deletedUDPEndpoints' ←
    forM (range oldEndpointsMap) (stale_service_body newEndpointsMap)
      deletedUDPEndpoints;
  newlyActiveUDPServices' ←
    forM (range newEndpointsMap) (active_service_body oldEndpointsMap)
      newlyActiveUDPServices;
  mret (deletedUDPEndpoints', newlyActiveUDPServices').

(** *** What the two loops of the detector emit *)

(** What one old endpoint of one service port contributes. *)
Definition emits_stale (newm : EndpointsMap) (svc : ServicePortName) (ep : E)
    (se : ServiceEndpoint) : Prop :=
  Protocol svc = v1.ProtocolUDP ∧ IsServing ep = true
  ∧ deleted_scan ep (index newm svc) = true
  ∧ se = mkServiceEndpoint (String ep) svc.

(** What one service port of the new map contributes. *)
Definition emits_active (oldm : EndpointsMap) (svc : ServicePortName) (eps : list E) : Prop :=
  Protocol svc = v1.ProtocolUDP
  ∧ 0 < serving_count eps ∧ serving_count (index oldm svc) = 0.

(** *** The endpoints map *)

Definition merge (em other : EndpointsMap) : EndpointsMap :=
  foldl (λ em '(svcPortName, _), <[svcPortName := index other svcPortName]> em)
        em (range other).

Definition unmerge (em other : EndpointsMap) : EndpointsMap :=
  foldl (λ em '(svcPortName, _), delete svcPortName em) em (range other).

(** The body of the inner loop of [getLocalReadyEndpointIPs].  The set
    stored under [nsn] is created on first use and then inserted into. *)
Definition localIPs_endpoint_body (svcPortName : ServicePortName)
    (localIPs : gmap types.NamespacedName (gset string)) (ep : E)
    : gmap types.NamespacedName (gset string) :=
  if negb (IsReady ep) then localIPs
  else if IsLocal ep then
    let nsn := NamespacedName svcPortName in
    let localIPs :=
      match localIPs !! nsn with
      | None => <[nsn := ∅]> localIPs
      | Some _ => localIPs
      end in
    alter (λ ips, {[IP ep]} ∪ ips) nsn localIPs
  else localIPs.

Definition getLocalReadyEndpointIPs (em : EndpointsMap)
    : gmap types.NamespacedName (gset string) :=
  foldl (λ localIPs '(svcPortName, epList),
           foldl (localIPs_endpoint_body svcPortName) localIPs epList)
        ∅ (range em).

(** The distinct IP addresses of the ready and local endpoints of a
    service, over the lists of all its ports, as the specification
    describes them. *)
Definition local_ready_ips (em : EndpointsMap) (nsn : types.NamespacedName)
    : gset string :=
  list_to_set
    ('(svcPortName, epList) ← map_to_list em;
     if decide (NamespacedName svcPortName = nsn)
     then IP <$> filter (λ ep, IsReady ep = true ∧ IsLocal ep = true) epList
     else []).

Definition LocalReadyEndpoints (em : EndpointsMap)
    : gmap types.NamespacedName Z :=
  let localIPs := getLocalReadyEndpointIPs em in
  foldl (λ eps '(nsn, ips), <[nsn := Z.of_nat (size ips)]> eps)
        ∅ (range localIPs).

(** *** The change tracker *)

Record endpointsChange := mkEndpointsChange {
  previous : EndpointsMap;
  current : EndpointsMap
}.

Record UpdateEndpointsMapResult := mkUpdateEndpointsMapResult {
  UpdatedServices : gset types.NamespacedName;
  DeletedUDPEndpoints : list ServiceEndpoint;
  NewlyActiveUDPServices : list ServicePortName;
  LastChangeTriggerTimes : gmap types.NamespacedName (list time.Time)
}.

End Embedding.

Arguments endpointsChange E : clear implicits.
Arguments UpdateEndpointsMapResult : clear implicits.

(** [discovery.EndpointSlice]: the two fields this file reads. *)
Class EndpointSliceFields (Slice : Type) := {
  AddressType : Slice → discovery.AddressType;
  Annotations : Slice → gmap string string
}.

(** What the file calls in endpointslicecache.go of the package, which
    keeps the per-slice state: [endpointSliceCacheKeys] (an [inl] is its
    error), and the two methods of [EndpointSliceCache], which take the
    cache and give it back. *)
Class EndpointSliceKeys (Slice : Type) := {
  endpointSliceCacheKeys : Slice → string + (types.NamespacedName * string)
}.

Class EndpointSliceCacheOps (E Slice Cache : Type) := {
  updatePending : Cache → Slice → bool → bool * Cache;
  cache_checkoutChanges :
    Cache → gmap types.NamespacedName (endpointsChange E) * Cache
}.

(** [time.Parse(time.RFC3339Nano, _)]; [None] is its error. *)
Class TimeParser := { Parse_RFC3339Nano : string → option time.Time }.

Definition supportedEndpointSliceAddressTypes : gset string :=
  {[ discovery.AddressTypeIPv4; discovery.AddressTypeIPv6 ]}.

Definition is_nil {A} (p : option A) : bool :=
  match p with None => true | Some _ => false end.

Section Tracker.
Context `{!RangeOrder} {E : Type} `{!Endpoint E}.
Context {Slice Cache : Type} `{EndpointSliceFields Slice}
        `{EndpointSliceKeys Slice} `{EndpointSliceCacheOps E Slice Cache}
        `{TimeParser}.

#[local] Abbreviation EndpointsMap := (gmap ServicePortName (list E)).
#[local] Abbreviation TriggerTimes :=
  (gmap types.NamespacedName (list time.Time)).

(** The tracker.  Its mutex is not modelled: calls are taken one at a
    time.  The observer [processEndpointsMapChange] acts on the process
    and is taken to return. *)
Record EndpointsChangeTracker := mkEndpointsChangeTracker {
  processEndpointsMapChange :
    option (EndpointsMap → EndpointsMap → World → World);
  endpointSliceCache : Cache;
  lastChangeTriggerTimes : TriggerTimes;
  trackerStartTime : time.Time
}.

(** [NewEndpointsChangeTracker]; [now] is what [time.Now()] reads and
    [cache] what [NewEndpointSliceCache] builds. *)
Definition NewEndpointsChangeTracker (now : time.Time) (cache : Cache)
    (processEndpointsMapChange :
       option (EndpointsMap → EndpointsMap → World → World))
    : EndpointsChangeTracker :=
  {| lastChangeTriggerTimes := ∅;
     trackerStartTime := now;
     processEndpointsMapChange := processEndpointsMapChange;
     endpointSliceCache := cache |}.

Definition getLastChangeTriggerTime (annotations : gmap string string)
    : M time.Time :=
  if negb (bool_decide (is_Some
             (annotations !! v1.EndpointsLastChangeTriggerTime)))
  then mret time.zero
  else
    match Parse_RFC3339Nano
            (default "" (annotations !! v1.EndpointsLastChangeTriggerTime))
    with
    | Some val => mret val
    | None =>
        klog_write klog.Error
          "Error while parsing EndpointsLastChangeTriggerTimeAnnotation";;
        mret time.zero
    end.

(** [EndpointSliceUpdate]: returns the boolean and the tracker after the
    call. *)
Definition EndpointSliceUpdate (ect : EndpointsChangeTracker)
    (endpointSlice : option Slice) (removeSlice : bool)
    : M (bool * EndpointsChangeTracker) :=
  addressType ← (slice ← deref endpointSlice; mret (AddressType slice));
  if negb (bool_decide (addressType ∈ supportedEndpointSliceAddressTypes))
  then
    klog_write (klog.V 4)
      "EndpointSlice address type not supported by kube-proxy";;
    mret (false, ect)
  else if is_nil endpointSlice then
    klog_write klog.Error "Nil endpointSlice passed to EndpointSliceUpdate";;
    mret (false, ect)
  else
    slice ← deref endpointSlice;
    match endpointSliceCacheKeys slice with
    | inl err =>
        klog_write klog.Info "Error getting endpoint slice cache keys";;
        mret (false, ect)
    | inr (namespacedName, _) =>
        EndpointChangesTotal_Inc;;
        let '(changeNeeded, cache) :=
          updatePending (endpointSliceCache ect) slice removeSlice in
        let ect := mkEndpointsChangeTracker (processEndpointsMapChange ect)
                     cache (lastChangeTriggerTimes ect)
                     (trackerStartTime ect) in
        if changeNeeded then
          EndpointChangesPending_Inc;;
          if removeSlice then
            mret (changeNeeded,
                  mkEndpointsChangeTracker (processEndpointsMapChange ect)
                    (endpointSliceCache ect)
                    (delete namespacedName (lastChangeTriggerTimes ect))
                    (trackerStartTime ect))
          else
            t ← getLastChangeTriggerTime (Annotations slice);
            if negb (time.IsZero t) && time.After t (trackerStartTime ect)
            then
              mret (changeNeeded,
                    mkEndpointsChangeTracker (processEndpointsMapChange ect)
                      (endpointSliceCache ect)
                      (<[namespacedName :=
                           default [] (lastChangeTriggerTimes ect
                                         !! namespacedName) ++ [t]]>
                         (lastChangeTriggerTimes ect))
                      (trackerStartTime ect))
            else mret (changeNeeded, ect)
        else mret (changeNeeded, ect)
    end.

Definition checkoutChanges (ect : EndpointsChangeTracker)
    : M (gmap types.NamespacedName (endpointsChange E)
         * EndpointsChangeTracker) :=
  EndpointChangesPending_Set 0;;
  let '(changes, cache) := cache_checkoutChanges (endpointSliceCache ect) in
  mret (changes,
        mkEndpointsChangeTracker (processEndpointsMapChange ect) cache
          (lastChangeTriggerTimes ect) (trackerStartTime ect)).

(** [checkoutTriggerTimes]: the map behind the pointer argument is taken
    and given back, with the tracker emptied. *)
Definition checkoutTriggerTimes (ect : EndpointsChangeTracker)
    (lastChangeTriggerTimes' : TriggerTimes)
    : TriggerTimes * EndpointsChangeTracker :=
  (foldl (λ (acc : TriggerTimes) '(k, v),
            match acc !! k with
            | None => <[k := v]> acc
            | Some prev => <[k := prev ++ v]> acc
            end)
         lastChangeTriggerTimes' (range (lastChangeTriggerTimes ect)),
   mkEndpointsChangeTracker (processEndpointsMapChange ect)
     (endpointSliceCache ect) ∅ (trackerStartTime ect)).

(** The tracker as an apply cycle leaves it: the cache after its
    checkout, no trigger time buffered. *)
Definition after_checkout (ect : EndpointsChangeTracker)
    : EndpointsChangeTracker :=
  mkEndpointsChangeTracker (processEndpointsMapChange ect)
    (cache_checkoutChanges (endpointSliceCache ect)).2 ∅
    (trackerStartTime ect).

(** The body of the loop of [Update] over the checked-out changes. *)
Definition Update_body (ect : EndpointsChangeTracker)
    (entry : types.NamespacedName * endpointsChange E)
    (st : EndpointsMap * UpdateEndpointsMapResult)
    : M (EndpointsMap * UpdateEndpointsMapResult) :=
  let '(nn, change) := entry in
  let '(em, result) := st in
  match processEndpointsMapChange ect with
  | Some observer =>
      λ w, Return tt (observer (previous change) (current change) w)
  | None => mret tt
  end;;
  let updated := {[nn]} ∪ UpdatedServices result in
  let em := unmerge em (previous change) in
  let em := merge em (current change) in
  '(deleted, active) ←
    detectStaleConntrackEntries (previous change) (current change)
      (DeletedUDPEndpoints result) (NewlyActiveUDPServices result);
  mret (em, mkUpdateEndpointsMapResult updated deleted active
              (LastChangeTriggerTimes result)).

(** [Update]: returns the result, the map after the call and the tracker
    after the call ([None] is the nil tracker). *)
Definition Update (em : EndpointsMap) (ect : option EndpointsChangeTracker)
    : M (UpdateEndpointsMapResult * EndpointsMap
         * option EndpointsChangeTracker) :=
  let result := mkUpdateEndpointsMapResult ∅ [] [] ∅ in
  match ect with
  | None => mret (result, em, None)
  | Some ect =>
      '(changes, ect) ← checkoutChanges ect;
      '(em, result) ← forM (range changes) (Update_body ect) (em, result);
      let '(times, ect) :=
        checkoutTriggerTimes ect (LastChangeTriggerTimes result) in
      mret (mkUpdateEndpointsMapResult (UpdatedServices result)
              (DeletedUDPEndpoints result) (NewlyActiveUDPServices result)
              times,
            em, Some ect)
  end.

(** What the specification asks of a rejected update: the call returns
    false and leaves the tracker as it was, something was logged, and
    something was counted (a collector of the registry moved). *)
Definition rejected_logged_counted
    (out : Outcome (bool * EndpointsChangeTracker))
    (ect : EndpointsChangeTracker) (w : World) : Prop :=
  ∃ w', out = Return (false, ect) w'
        ∧ log w' ≠ log w ∧ registry w' ≠ registry w.

End Tracker.

Arguments checkoutTriggerTimes : simpl never.
Arguments detectStaleConntrackEntries : simpl never.
Arguments merge : simpl never.
Arguments unmerge : simpl never.

(** ** Sample data

    Concrete endpoints, maps, slices and a scripted cache, on which the
    embedding is run. *)

Module Fixture.

Definition web : types.NamespacedName := types.mkNamespacedName "default" "web".
Definition web_http : ServicePortName := mkServicePortName web "http" v1.ProtocolTCP.
Definition web_https : ServicePortName := mkServicePortName web "https" v1.ProtocolTCP.

Definition dns : types.NamespacedName := types.mkNamespacedName "kube-system" "dns".
Definition dns_udp : ServicePortName := mkServicePortName dns "dns" v1.ProtocolUDP.
Definition dns_tcp : ServicePortName := mkServicePortName dns "dns-tcp" v1.ProtocolTCP.

(** One local pod, 10.0.0.1, behind both ports of [web]. *)
Definition ep80 : BaseEndpointInfo :=
  mkBaseEndpointInfo "10.0.0.1" 80 "10.0.0.1:80" true true true false ∅.
Definition ep443 : BaseEndpointInfo :=
  mkBaseEndpointInfo "10.0.0.1" 443 "10.0.0.1:443" true true true false ∅.

Definition web_two_ports : gmap ServicePortName (list BaseEndpointInfo) :=
  {[ web_http := [ep80]; web_https := [ep443] ]}.

(** A DNS pod, serving, and the same pod once it stopped serving. *)
Definition epX : BaseEndpointInfo :=
  mkBaseEndpointInfo "10.0.1.5" 53 "10.0.1.5:53" false true true false ∅.
Definition epX_down : BaseEndpointInfo :=
  mkBaseEndpointInfo "10.0.1.5" 53 "10.0.1.5:53" false false false false ∅.
Definition epY : BaseEndpointInfo :=
  mkBaseEndpointInfo "10.0.1.6" 53 "10.0.1.6:53" false true true false ∅.

Definition dns_X : gmap ServicePortName (list BaseEndpointInfo) :=
  {[ dns_udp := [epX]; dns_tcp := [epX] ]}.
Definition dns_none : gmap ServicePortName (list BaseEndpointInfo) :=
  {[ dns_udp := []; dns_tcp := [] ]}.
Definition dns_Y : gmap ServicePortName (list BaseEndpointInfo) :=
  {[ dns_udp := [epY]; dns_tcp := [epY] ]}.

(** An endpoint slice: its metadata and address type. *)
Record EndpointSlice := mkEndpointSlice {
  slice_namespace : string;
  slice_service : string;
  slice_name : string;
  slice_addressType : discovery.AddressType;
  slice_annotations : gmap string string
}.

Definition slice_fields : EndpointSliceFields EndpointSlice :=
  {| AddressType := slice_addressType; Annotations := slice_annotations |}.

Definition slice_keys : EndpointSliceKeys EndpointSlice :=
  {| endpointSliceCacheKeys s :=
       if bool_decide (slice_service s = "")
       then inl "no service name label set on endpoint slice"
       else inr (types.mkNamespacedName (slice_namespace s) (slice_service s),
                 slice_name s) |}.

(** A scripted cache: the answers [updatePending] will give and the change
    sets [checkoutChanges] will hand out, in order. *)
Record ScriptedCache := mkScriptedCache {
  answers : list bool;
  checkouts :
    list (gmap types.NamespacedName (endpointsChange BaseEndpointInfo))
}.

Definition scripted_ops
    : EndpointSliceCacheOps BaseEndpointInfo EndpointSlice ScriptedCache :=
  {| updatePending c _ _ :=
       match answers c with
       | [] => (false, c)
       | a :: rest => (a, mkScriptedCache rest (checkouts c))
       end;
     cache_checkoutChanges c :=
       match checkouts c with
       | [] => (∅, c)
       | m :: rest => (m, mkScriptedCache (answers c) rest)
       end |}.

(** A parser that knows two timestamps: 1970-01-01T00:00:00Z and
    2024-01-01T00:00:00Z, in nanoseconds since the zero Time. *)
Definition unix_epoch : time.Time := 62135596800 * 1000000000.
Definition new_year_2024 : time.Time := (62135596800 + 1704067200) * 1000000000.

Definition two_stamps : TimeParser :=
  {| Parse_RFC3339Nano s :=
       if bool_decide (s = "1970-01-01T00:00:00Z") then Some unix_epoch
       else if bool_decide (s = "2024-01-01T00:00:00Z") then Some new_year_2024
       else None |}.

Definition stamped (stamp : string) : gmap string string :=
  {[ v1.EndpointsLastChangeTriggerTime := stamp ]}.

Definition slice_v4 (annotations : gmap string string) : EndpointSlice :=
  mkEndpointSlice "kube-system" "dns" "dns-abcde" discovery.AddressTypeIPv4
    annotations.

Definition slice_fqdn : EndpointSlice :=
  mkEndpointSlice "kube-system" "dns" "dns-fqdn" discovery.AddressTypeFQDN ∅.

Definition world0 : World := mkWorld [] (metrics.mkRegistry 0 0).

(** A tracker built in mid-2023 whose cache answers "changed" twice. *)
Definition mid_2023 : time.Time := (62135596800 + 1688169600) * 1000000000.

Definition tracker0 : @EndpointsChangeTracker BaseEndpointInfo ScriptedCache :=
  NewEndpointsChangeTracker mid_2023 (mkScriptedCache [true; true] []) None.

(** [tracker0] after an update of [dns] stamped 2024, and after its removal. *)
Definition tracker1 : @EndpointsChangeTracker BaseEndpointInfo ScriptedCache :=
  mkEndpointsChangeTracker None (mkScriptedCache [true] [])
    {[ dns := [new_year_2024] ]} mid_2023.
Definition tracker2 : @EndpointsChangeTracker BaseEndpointInfo ScriptedCache :=
  mkEndpointsChangeTracker None (mkScriptedCache [] []) ∅ mid_2023.

Definition world1 : World := mkWorld [] (metrics.mkRegistry 1 1).
Definition world2 : World := mkWorld [] (metrics.mkRegistry 2 2).

(** A tracker whose cache hands out the change (nothing, [dns_Y]) for
    [dns] and then the change ([dns_Y], nothing). *)
Definition tracker_add_remove
    : @EndpointsChangeTracker BaseEndpointInfo ScriptedCache :=
  NewEndpointsChangeTracker mid_2023
    (mkScriptedCache []
       [ {[ dns := mkEndpointsChange ∅ dns_Y ]};
         {[ dns := mkEndpointsChange dns_Y ∅ ]} ])
    None.

(** [tracker_add_remove] once the first change set was handed out. *)
Definition tracker_remove
    : @EndpointsChangeTracker BaseEndpointInfo ScriptedCache :=
  mkEndpointsChangeTracker None
    (mkScriptedCache [] [ {[ dns := mkEndpointsChange dns_Y ∅ ]} ])
    ∅ mid_2023.

End Fixture.

(** ** Loops and maps: how they are reasoned about *)

Ltac unfold_M :=
  unfold mbind, M_bind, mret, M_ret, klog_write, panic, deref,
    EndpointChangesTotal_Inc, EndpointChangesPending_Inc,
    EndpointChangesPending_Set in *.

Section Loops.
Context {A S : Type}.

(** A loop that returns at every step, started from an invariant,
    returns with the invariant established for the whole list. *)
Lemma forM_inv (I : list A → S → Prop) (body : A → S → M S) :
  ∀ (l : list A) (s : S) (w : World),
    I [] s →
    (∀ pre x s w, I pre s →
       ∃ s' w', body x s w = Return s' w' ∧ I (pre ++ [x]) s') →
    ∃ s' w', forM l body s w = Return s' w' ∧ I l s'.
Proof.
  intros l. revert I.
  induction l as [|x l IH]; intros I s w H0 Hstep.
  - exists s, w. split; [reflexivity | assumption].
  - destruct (Hstep [] x s w H0) as (s1 & w1 & Hb & H1).
    destruct (IH (λ pre, I (x :: pre)) s1 w1 H1) as (s2 & w2 & Hl & H2).
    + intros pre y s' w' HI. apply (Hstep (x :: pre) y s' w' HI).
    + exists s2, w2. split; [|assumption].
      cbn. unfold_M. rewrite Hb. exact Hl.
Qed.
End Loops.

Section Ranges.
Context `{RangeOrder} `{Countable K} {V : Type}.

Lemma elem_of_range (m : gmap K V) (k : K) (v : V) :
  (k, v) ∈ range m ↔ m !! k = Some v.
Proof. rewrite (range_perm m). apply elem_of_map_to_list. Qed.

Lemma elem_of_range_fst (m : gmap K V) (k : K) :
  k ∈ (range m).*1 ↔ is_Some (m !! k).
Proof.
  rewrite list_elem_of_fmap. split.
  - intros ([k' v] & -> & Hin). apply elem_of_range in Hin. eauto.
  - intros [v Hv]. exists (k, v). split; [done|]. by apply elem_of_range.
Qed.

Lemma NoDup_range_fst (m : gmap K V) : NoDup (range m).*1.
Proof. rewrite (range_perm m). apply NoDup_fst_map_to_list. Qed.

Lemma range_empty : range (∅ : gmap K V) = [].
Proof.
  apply Permutation_nil_r. rewrite (range_perm ∅).
  by rewrite map_to_list_empty.
Qed.

Lemma range_singleton (k : K) (v : V) :
  range ({[k := v]} : gmap K V) = [(k, v)].
Proof.
  apply Permutation_singleton_r. rewrite (range_perm _).
  by rewrite map_to_list_singleton.
Qed.

(** Two loop bodies that agree on the entries of a list fold alike. *)
Lemma foldl_ext_in {A B} (f g : A → B → A) (l : list B) :
  ∀ a, (∀ a x, x ∈ l → f a x = g a x) → foldl f a l = foldl g a l.
Proof.
  induction l as [|x l IH]; intros a Hfg; cbn; [done|].
  rewrite (Hfg a x) by (by left).
  apply IH. intros a' y Hy. apply Hfg. by right.
Qed.

(** Writing [f k] under every key of a list of entries. *)
Lemma foldl_insert_lookup {W} (f : K → V) (l : list (K * W)) :
  ∀ (m : gmap K V) (k : K),
    foldl (λ m '(k, _), <[k := f k]> m) m l !! k
    = if decide (k ∈ l.*1) then Some (f k) else m !! k.
Proof.
  induction l as [|[k0 v0] l IH]; intros m k; cbn.
  - rewrite decide_False; [done | by apply not_elem_of_nil].
  - rewrite IH. destruct (decide (k ∈ l.*1)) as [Hin|Hin].
    + rewrite decide_True; [done | by right].
    + destruct (decide (k = k0)) as [->|Hne].
      * rewrite lookup_insert_eq, decide_True; [done | by left].
      * rewrite lookup_insert_ne by done.
        rewrite decide_False; [done|].
        by intros [?|?]%elem_of_cons.
Qed.

(** Deleting every key of a list of entries. *)
Lemma foldl_delete_lookup {W} (l : list (K * W)) :
  ∀ (m : gmap K V) (k : K),
    foldl (λ m '(k, _), delete k m) m l !! k
    = if decide (k ∈ l.*1) then None else m !! k.
Proof.
  induction l as [|[k0 v0] l IH]; intros m k; cbn.
  - rewrite decide_False; [done | by apply not_elem_of_nil].
  - rewrite IH. destruct (decide (k ∈ l.*1)) as [Hin|Hin].
    + rewrite decide_True; [done | by right].
    + destruct (decide (k = k0)) as [->|Hne].
      * rewrite lookup_delete_eq, decide_True; [done | by left].
      * rewrite lookup_delete_ne by done.
        rewrite decide_False; [done|].
        by intros [?|?]%elem_of_cons.
Qed.
End Ranges.

Section MapFacts.
Context `{!RangeOrder} {E : Type} `{!Endpoint E}.
Implicit Types em other : gmap ServicePortName (list E).

Lemma index_Some em k eps : em !! k = Some eps → index em k = eps.
Proof. unfold index. by intros ->. Qed.

Lemma index_None em k : em !! k = None → index em k = [].
Proof. unfold index. by intros ->. Qed.

(** [merge] overwrites exactly the keys of [other], with its values. *)
Lemma merge_lookup em other k :
  merge em other !! k
  = match other !! k with Some eps => Some eps | None => em !! k end.
Proof.
  unfold merge. rewrite (foldl_insert_lookup (index other)).
  destruct (other !! k) as [eps|] eqn:Hk.
  - rewrite decide_True by (apply elem_of_range_fst; eauto).
    by rewrite (index_Some _ _ _ Hk).
  - rewrite decide_False; [done|].
    rewrite elem_of_range_fst, Hk. by intros [? ?].
Qed.

(** [unmerge] deletes exactly the keys of [other]. *)
Lemma unmerge_lookup em other k :
  unmerge em other !! k
  = match other !! k with Some _ => None | None => em !! k end.
Proof.
  unfold unmerge. rewrite foldl_delete_lookup.
  destruct (other !! k) as [eps|] eqn:Hk.
  - by rewrite decide_True by (apply elem_of_range_fst; eauto).
  - rewrite decide_False; [done|].
    rewrite elem_of_range_fst, Hk. by intros [? ?].
Qed.
End MapFacts.

(** ** The staleness and activation detector *)

Section DetectStale.
Context `{!RangeOrder} {E : Type} `{!Endpoint E}.
Implicit Types oldm newm : gmap ServicePortName (list E).

(** The scan says "deleted" exactly when the new list has no endpoint
    with the same string and the same serving flag. *)
Lemma deleted_scan_spec (ep : E) (news : list E) :
  deleted_scan ep news = true
  ↔ ¬ ∃ n, n ∈ news ∧ String n = String ep ∧ IsServing n = IsServing ep.
Proof.
  induction news as [|n news IH]; cbn.
  - split; [|done]. intros _ (n & Hn & _). by apply elem_of_nil in Hn.
  - destruct (bool_decide (String n = String ep)
              && bool_decide (IsServing n = IsServing ep)) eqn:Hm.
    + apply andb_true_iff in Hm as [Hs Hv].
      apply bool_decide_eq_true in Hs, Hv.
      split; [done|]. intros Hno. exfalso. apply Hno.
      exists n. split; [by left | done].
    + rewrite IH. apply andb_false_iff in Hm.
      split; intros Hno (n' & Hin & Hs & Hv); apply Hno.
      * apply elem_of_cons in Hin as [->|Hin]; [|by eauto].
        exfalso. destruct Hm as [Hm|Hm];
          apply bool_decide_eq_false in Hm; contradiction.
      * exists n'. split; [by right | done].
Qed.

Lemma stale_endpoints_loop newm svc (eps : list E) acc w :
  Protocol svc = v1.ProtocolUDP →
  ∃ acc' w',
    forM eps (stale_endpoint_body newm svc) acc w = Return acc' w'
    ∧ ∀ se, se ∈ acc' ↔
        se ∈ acc ∨ ∃ ep, ep ∈ eps ∧ emits_stale newm svc ep se.
Proof.
  intros Hudp.
  apply (forM_inv (λ pre acc', ∀ se, se ∈ acc' ↔
           se ∈ acc ∨ ∃ ep, ep ∈ pre ∧ emits_stale newm svc ep se)).
  - intros se. split; [by left|].
    intros [?|(ep & Hin & _)]; [done | by apply elem_of_nil in Hin].
  - intros pre ep acc1 w1 HI. unfold stale_endpoint_body.
    destruct (IsServing ep) eqn:Hsrv; cbn;
      [destruct (deleted_scan ep (index newm svc)) eqn:Hdel|].
    + unfold_M. eexists _, _. split; [reflexivity|].
      intros se. rewrite elem_of_app, HI, list_elem_of_singleton.
      split.
      * intros [[?|(ep' & Hin & Hem)]| ->]; [by left| |].
        -- right. exists ep'. rewrite elem_of_app. by eauto.
        -- right. exists ep. rewrite elem_of_app, list_elem_of_singleton.
           split; [by right|]. by repeat split.
      * intros [?|(ep' & Hin & Hem)]; [by left; left|].
        apply elem_of_app in Hin as [Hin|Hin]; [left; right; by eauto|].
        apply list_elem_of_singleton in Hin as ->.
        right. by destruct Hem as (_ & _ & _ & ->).
    + unfold_M. eexists _, _. split; [reflexivity|].
      intros se. rewrite HI. split.
      * intros [?|(ep' & Hin & Hem)]; [by left|].
        right. exists ep'. rewrite elem_of_app. by eauto.
      * intros [?|(ep' & Hin & Hem)]; [by left|].
        apply elem_of_app in Hin as [Hin|Hin]; [right; by eauto|].
        apply list_elem_of_singleton in Hin as ->.
        destruct Hem as (_ & _ & Hd & _). congruence.
    + unfold_M. eexists _, _. split; [reflexivity|].
      intros se. rewrite HI. split.
      * intros [?|(ep' & Hin & Hem)]; [by left|].
        right. exists ep'. rewrite elem_of_app. by eauto.
      * intros [?|(ep' & Hin & Hem)]; [by left|].
        apply elem_of_app in Hin as [Hin|Hin]; [right; by eauto|].
        apply list_elem_of_singleton in Hin as ->.
        destruct Hem as (_ & Hs & _). congruence.
Qed.

Lemma stale_services_loop newm (entries : list (ServicePortName * list E))
    acc w :
  ∃ acc' w',
    forM entries (stale_service_body newm) acc w = Return acc' w'
    ∧ ∀ se, se ∈ acc' ↔
        se ∈ acc ∨ ∃ svc eps ep, (svc, eps) ∈ entries ∧ ep ∈ eps
                                 ∧ emits_stale newm svc ep se.
Proof.
  apply (forM_inv (λ pre acc', ∀ se, se ∈ acc' ↔
           se ∈ acc ∨ ∃ svc eps ep, (svc, eps) ∈ pre ∧ ep ∈ eps
                                    ∧ emits_stale newm svc ep se)).
  - intros se. split; [by left|].
    intros [?|(svc & eps & ep & Hin & _)];
      [done | by apply elem_of_nil in Hin].
  - intros pre [svc eps] acc1 w1 HI. unfold stale_service_body.
    destruct (bool_decide (Protocol svc ≠ v1.ProtocolUDP)) eqn:Hp.
    + apply bool_decide_eq_true in Hp.
      unfold_M. eexists _, _. split; [reflexivity|].
      intros se. rewrite HI. split.
      * intros [?|(svc' & eps' & ep & Hin & Hep & Hem)]; [by left|].
        right. exists svc', eps', ep. rewrite elem_of_app. by eauto.
      * intros [?|(svc' & eps' & ep & Hin & Hep & Hem)]; [by left|].
        apply elem_of_app in Hin as [Hin|Hin];
          [right; by eauto 6|].
        apply list_elem_of_singleton in Hin. simplify_eq.
        by destruct Hem as (Hudp & _).
    + apply bool_decide_eq_false in Hp.
      assert (Hudp : Protocol svc = v1.ProtocolUDP)
        by (destruct (decide (Protocol svc = v1.ProtocolUDP)); tauto).
      destruct (stale_endpoints_loop newm svc eps acc1 w1 Hudp)
        as (acc2 & w2 & Hrun & Hacc2).
      exists acc2, w2. split; [exact Hrun|].
      intros se. rewrite Hacc2, HI. split.
      * intros [[?|(svc' & eps' & ep & Hin & Hep & Hem)]
               |(ep & Hep & Hem)]; [by left| |].
        -- right. exists svc', eps', ep. rewrite elem_of_app. by eauto.
        -- right. exists svc, eps, ep.
           rewrite elem_of_app, list_elem_of_singleton. by eauto.
      * intros [?|(svc' & eps' & ep & Hin & Hep & Hem)]; [by left; left|].
        apply elem_of_app in Hin as [Hin|Hin];
          [left; right; by eauto 6|].
        apply list_elem_of_singleton in Hin. simplify_eq.
        right. by eauto.
Qed.

(** The accumulating counter counts the serving endpoints. *)
Lemma count_serving_spec (eps : list E) (n : Z) :
  count_serving eps n = n + serving_count eps.
Proof.
  revert n. induction eps as [|ep eps IH]; intros n; cbn.
  - unfold serving_count. cbn. lia.
  - rewrite IH. unfold serving_count. rewrite filter_cons.
    destruct (IsServing ep).
    + rewrite decide_True by done. cbn [length]. lia.
    + rewrite decide_False by done. lia.
Qed.

Lemma active_services_loop oldm (entries : list (ServicePortName * list E))
    acc w :
  ∃ acc' w',
    forM entries (active_service_body oldm) acc w = Return acc' w'
    ∧ ∀ svc, svc ∈ acc' ↔
        svc ∈ acc ∨ ∃ eps, (svc, eps) ∈ entries ∧ emits_active oldm svc eps.
Proof.
  apply (forM_inv (λ pre acc', ∀ svc, svc ∈ acc' ↔
           svc ∈ acc ∨ ∃ eps, (svc, eps) ∈ pre ∧ emits_active oldm svc eps)).
  - intros svc. split; [by left|].
    intros [?|(eps & Hin & _)]; [done | by apply elem_of_nil in Hin].
  - intros pre [svc eps] acc1 w1 HI. unfold active_service_body.
    rewrite !count_serving_spec, !Z.add_0_l.
    destruct (bool_decide (Protocol svc ≠ v1.ProtocolUDP)) eqn:Hp;
      [|destruct ((0 <? serving_count eps)
                  && (serving_count (index oldm svc) =? 0)) eqn:Hc];
      unfold_M; eexists _, _; (split; [reflexivity|]); intros svc'.
    + apply bool_decide_eq_true in Hp. rewrite HI. split.
      * intros [?|(eps' & Hin & Hem)]; [by left|].
        right. exists eps'. rewrite elem_of_app. by eauto.
      * intros [?|(eps' & Hin & Hem)]; [by left|].
        apply elem_of_app in Hin as [Hin|Hin]; [right; by eauto|].
        apply list_elem_of_singleton in Hin. simplify_eq.
        by destruct Hem as (Hudp & _).
    + apply bool_decide_eq_false in Hp.
      assert (Hudp : Protocol svc = v1.ProtocolUDP)
        by (destruct (decide (Protocol svc = v1.ProtocolUDP)); tauto).
      apply andb_true_iff in Hc as [Hpos Hzero].
      apply Z.ltb_lt in Hpos. apply Z.eqb_eq in Hzero.
      rewrite elem_of_app, HI, list_elem_of_singleton. split.
      * intros [[?|(eps' & Hin & Hem)]| ->]; [by left| |].
        -- right. exists eps'. rewrite elem_of_app. by eauto.
        -- right. exists eps. rewrite elem_of_app, list_elem_of_singleton.
           split; [by right|]. by repeat split.
      * intros [?|(eps' & Hin & Hem)]; [by left; left|].
        apply elem_of_app in Hin as [Hin|Hin]; [left; right; by eauto|].
        apply list_elem_of_singleton in Hin. simplify_eq. by right.
    + apply bool_decide_eq_false in Hp.
      apply andb_false_iff in Hc. rewrite HI. split.
      * intros [?|(eps' & Hin & Hem)]; [by left|].
        right. exists eps'. rewrite elem_of_app. by eauto.
      * intros [?|(eps' & Hin & Hem)]; [by left|].
        apply elem_of_app in Hin as [Hin|Hin]; [right; by eauto|].
        apply list_elem_of_singleton in Hin. simplify_eq.
        destruct Hem as (_ & Hpos & Hzero).
        destruct Hc as [Hc|Hc];
          [apply Z.ltb_ge in Hc | apply Z.eqb_neq in Hc]; lia.
Qed.

(** The detector returns, and both of its lists are the given ones
    extended by what the two loops emit. *)
Lemma detectStaleConntrackEntries_spec oldm newm deleted active w :
  ∃ deleted' active' w',
    detectStaleConntrackEntries oldm newm deleted active w
    = Return (deleted', active') w'
    ∧ (∀ se, se ∈ deleted' ↔
         se ∈ deleted ∨ ∃ svc eps ep, oldm !! svc = Some eps ∧ ep ∈ eps
                                      ∧ emits_stale newm svc ep se)
    ∧ (∀ svc, svc ∈ active' ↔
         svc ∈ active ∨ ∃ eps, newm !! svc = Some eps
                               ∧ emits_active oldm svc eps).
Proof.
  destruct (stale_services_loop newm (range oldm) deleted w)
    as (d' & w1 & Hrun1 & Hd).
  destruct (active_services_loop oldm (range newm) active w1)
    as (a' & w2 & Hrun2 & Ha).
  exists d', a', w2. split; [|split].
  - unfold detectStaleConntrackEntries. unfold_M.
    by rewrite Hrun1, Hrun2.
  - intros se. rewrite Hd.
    by setoid_rewrite elem_of_range.
  - intros svc. rewrite Ha.
    by setoid_rewrite elem_of_range.
Qed.
End DetectStale.

Section DetectStaleClaims.
Context `{!RangeOrder} {E : Type} `{!Endpoint E}.
Implicit Types oldm newm : gmap ServicePortName (list E).

(** C1.  [detectStaleConntrackEntries], started on empty lists, returns,
    and its stale list is as follows.  For a UDP service port of the
    previous map and an endpoint of its previous list that was serving,
    the pair (endpoint string, service port) is in the list iff the
    current list of that service port has no endpoint with the same
    string and the same serving flag.  Every pair of the list has a UDP
    service port, and is the pair of an endpoint of the previous list
    that was serving: non-UDP service ports and non-serving endpoints
    put nothing in the list. *)
Theorem C1_stale_output oldm newm (w : World) :
  ∃ stale active w',
    detectStaleConntrackEntries oldm newm [] [] w
    = Return (stale, active) w'
    ∧ (∀ svc eps ep,
         oldm !! svc = Some eps → ep ∈ eps →
         Protocol svc = v1.ProtocolUDP → IsServing ep = true →
         (mkServiceEndpoint (String ep) svc ∈ stale
          ↔ ¬ ∃ n, n ∈ index newm svc ∧ String n = String ep
                   ∧ IsServing n = IsServing ep))
    ∧ (∀ se, se ∈ stale →
         Protocol (SE_ServicePortName se) = v1.ProtocolUDP
         ∧ ∃ eps ep, oldm !! SE_ServicePortName se = Some eps ∧ ep ∈ eps
                     ∧ IsServing ep = true ∧ String ep = SE_Endpoint se).
Proof.
  destruct (detectStaleConntrackEntries_spec oldm newm [] [] w)
    as (stale & active & w' & Hrun & Hstale & _).
  exists stale, active, w'. split; [exact Hrun|]. split.
  - intros svc eps ep Hsvc Hep Hudp Hsrv. rewrite Hstale. split.
    + intros [Hnil|(svc' & eps' & ep' & _ & _ & Hem)];
        [by apply elem_of_nil in Hnil|].
      destruct Hem as (_ & Hsrv' & Hdel & Heq). simplify_eq.
      apply deleted_scan_spec in Hdel.
      intros (n & Hn & Hs & Hv). apply Hdel. exists n.
      repeat split; [done | congruence | congruence].
    + intros Hno. right. exists svc, eps, ep.
      repeat split; try done. by apply deleted_scan_spec.
  - intros se. rewrite Hstale.
    intros [Hnil|(svc & eps & ep & Hsvc & Hep & Hem)];
      [by apply elem_of_nil in Hnil|].
    destruct Hem as (Hudp & Hsrv & _ & ->). cbn.
    split; [done|]. by exists eps, ep.
Qed.

(** C2.  [detectStaleConntrackEntries], started on empty lists, returns,
    and a service port is in its newly-active list iff its protocol is
    UDP, it is a key of the current map, its current list has more than
    zero serving endpoints, and its previous list (empty when it is not a
    key of the previous map) has exactly zero. *)
Theorem C2_newly_active_output oldm newm (w : World) :
  ∃ stale active w',
    detectStaleConntrackEntries oldm newm [] [] w
    = Return (stale, active) w'
    ∧ ∀ svc,
        svc ∈ active
        ↔ Protocol svc = v1.ProtocolUDP
          ∧ is_Some (newm !! svc)
          ∧ 0 < serving_count (index newm svc)
          ∧ serving_count (default [] (oldm !! svc)) = 0.
Proof.
  destruct (detectStaleConntrackEntries_spec oldm newm [] [] w)
    as (stale & active & w' & Hrun & _ & Hactive).
  exists stale, active, w'. split; [exact Hrun|].
  intros svc. rewrite Hactive. split.
  - intros [Hnil|(eps & Hsvc & Hudp & Hpos & Hzero)];
      [by apply elem_of_nil in Hnil|].
    rewrite (index_Some _ _ _ Hsvc). by eauto.
  - intros (Hudp & [eps Hsvc] & Hpos & Hzero). right. exists eps.
    rewrite (index_Some _ _ _ Hsvc) in Hpos. by repeat split.
Qed.
End DetectStaleClaims.

(** ** Local ready endpoints *)

Section LocalReady.
Context `{!RangeOrder} {E : Type} `{!Endpoint E}.
Implicit Types em : gmap ServicePortName (list E).
Implicit Types localIPs : gmap types.NamespacedName (gset string).

(** The set recorded for a service; nothing recorded reads as empty. *)
#[local] Abbreviation ips_of localIPs nsn := (default ∅ (localIPs !! nsn)).

(** An endpoint counts for a service: ready, local, under one of its ports. *)
#[local] Abbreviation counts_for svc ep nsn ip :=
  (NamespacedName svc = nsn ∧ IsReady ep = true ∧ IsLocal ep = true
   ∧ IP ep = ip).

Lemma localIPs_endpoint_body_elem svc localIPs ep nsn ip :
  ip ∈ ips_of (localIPs_endpoint_body svc localIPs ep) nsn
  ↔ ip ∈ ips_of localIPs nsn ∨ counts_for svc ep nsn ip.
Proof.
  unfold localIPs_endpoint_body.
  destruct (IsReady ep) eqn:Hr; cbn; [|naive_solver].
  destruct (IsLocal ep) eqn:Hl; [|naive_solver].
  destruct (decide (NamespacedName svc = nsn)) as [<-|Hne].
  - destruct (localIPs !! NamespacedName svc) as [s|] eqn:Hs.
    + rewrite lookup_alter_eq, Hs. cbn. set_solver.
    + rewrite lookup_alter_eq, lookup_insert_eq. cbn. set_solver.
  - rewrite lookup_alter_ne by done.
    destruct (localIPs !! NamespacedName svc) as [s|] eqn:Hs.
    + naive_solver.
    + rewrite lookup_insert_ne by done. naive_solver.
Qed.

Lemma localIPs_endpoint_body_nonempty svc localIPs ep :
  map_Forall (λ _ ips, ips ≠ ∅) localIPs →
  map_Forall (λ _ ips, ips ≠ ∅) (localIPs_endpoint_body svc localIPs ep).
Proof.
  intros Hne. unfold localIPs_endpoint_body.
  destruct (IsReady ep); cbn; [|done]. destruct (IsLocal ep); [|done].
  intros nsn ips.
  destruct (decide (NamespacedName svc = nsn)) as [<-|Hk].
  - rewrite lookup_alter_eq.
    destruct (localIPs !! NamespacedName svc) as [s|] eqn:Hs.
    + rewrite Hs. cbn. intros [= <-]. set_solver.
    + rewrite lookup_insert_eq. cbn. intros [= <-]. set_solver.
  - rewrite lookup_alter_ne by done.
    destruct (localIPs !! NamespacedName svc) as [s|] eqn:Hs.
    + apply Hne.
    + rewrite lookup_insert_ne by done. apply Hne.
Qed.

Lemma localIPs_inner_loop svc (eps : list E) :
  ∀ localIPs,
    (∀ nsn ip,
       ip ∈ ips_of (foldl (localIPs_endpoint_body svc) localIPs eps) nsn
       ↔ ip ∈ ips_of localIPs nsn
         ∨ ∃ ep, ep ∈ eps ∧ counts_for svc ep nsn ip)
    ∧ (map_Forall (λ _ ips, ips ≠ ∅) localIPs →
       map_Forall (λ _ ips, ips ≠ ∅)
         (foldl (localIPs_endpoint_body svc) localIPs eps)).
Proof.
  induction eps as [|ep eps IH]; intros localIPs; cbn.
  - split; [|done]. intros nsn ip. split; [by left|].
    intros [?|(ep & Hin & _)]; [done | by apply elem_of_nil in Hin].
  - destruct (IH (localIPs_endpoint_body svc localIPs ep)) as [IHe IHn].
    split.
    + intros nsn ip. rewrite IHe, localIPs_endpoint_body_elem. split.
      * intros [[?|Hc]|(ep' & Hin & Hc)]; [by left| |].
        -- right. exists ep. split; [by left | done].
        -- right. exists ep'. split; [by right | done].
      * intros [?|(ep' & Hin & Hc)]; [by left; left|].
        apply elem_of_cons in Hin as [->|Hin]; [by left; right|].
        right. by exists ep'.
    + intros Hne. by apply IHn, localIPs_endpoint_body_nonempty.
Qed.

Lemma localIPs_outer_loop (entries : list (ServicePortName * list E)) :
  ∀ localIPs,
    let localIPs' :=
      foldl (λ localIPs '(svcPortName, epList),
               foldl (localIPs_endpoint_body svcPortName) localIPs epList)
            localIPs entries in
    (∀ nsn ip,
       ip ∈ ips_of localIPs' nsn
       ↔ ip ∈ ips_of localIPs nsn
         ∨ ∃ svc eps ep, (svc, eps) ∈ entries ∧ ep ∈ eps
                         ∧ counts_for svc ep nsn ip)
    ∧ (map_Forall (λ _ ips, ips ≠ ∅) localIPs →
       map_Forall (λ _ ips, ips ≠ ∅) localIPs').
Proof.
  induction entries as [|[svc eps] entries IH]; intros localIPs; cbn.
  - split; [|done]. intros nsn ip. split; [by left|].
    intros [?|(svc & eps & ep & Hin & _)];
      [done | by apply elem_of_nil in Hin].
  - destruct (IH (foldl (localIPs_endpoint_body svc) localIPs eps))
      as [IHe IHn].
    destruct (localIPs_inner_loop svc eps localIPs) as [Hie Hin'].
    split.
    + intros nsn ip. rewrite IHe, Hie. split.
      * intros [[?|(ep & Hep & Hc)]|(svc' & eps' & ep & Hin & Hep & Hc)];
          [by left| |].
        -- right. exists svc, eps, ep. split; [by left | done].
        -- right. exists svc', eps', ep. split; [by right | done].
      * intros [?|(svc' & eps' & ep & Hin & Hep & Hc)]; [by left; left|].
        apply elem_of_cons in Hin as [[= -> ->]|Hin].
        -- left. right. by exists ep.
        -- right. by exists svc', eps', ep.
    + intros Hne. by apply IHn, Hin'.
Qed.

(** The specification's set, by its members. *)
Lemma elem_of_local_ready_ips em nsn ip :
  ip ∈ local_ready_ips em nsn
  ↔ ∃ svc eps ep, em !! svc = Some eps ∧ ep ∈ eps
                  ∧ counts_for svc ep nsn ip.
Proof.
  unfold local_ready_ips. rewrite elem_of_list_to_set, list_elem_of_bind.
  split.
  - intros ([svc eps] & Hip & Hin). apply elem_of_map_to_list in Hin.
    destruct (decide (NamespacedName svc = nsn)) as [Hn|Hn];
      [|by apply elem_of_nil in Hip].
    apply list_elem_of_fmap in Hip as (ep & -> & Hep).
    apply list_elem_of_filter in Hep as [[Hr Hl] Hep].
    by exists svc, eps, ep.
  - intros (svc & eps & ep & Hsvc & Hep & Hn & Hr & Hl & <-).
    exists (svc, eps). split; [|by apply elem_of_map_to_list].
    rewrite decide_True by done.
    apply list_elem_of_fmap. exists ep. split; [done|].
    by apply list_elem_of_filter.
Qed.

(** What [getLocalReadyEndpointIPs] records for a service: its set of
    local ready IPs when there is one, nothing otherwise. *)
Lemma getLocalReadyEndpointIPs_lookup em nsn :
  getLocalReadyEndpointIPs em !! nsn
  = if decide (local_ready_ips em nsn = ∅) then None
    else Some (local_ready_ips em nsn).
Proof.
  unfold getLocalReadyEndpointIPs.
  destruct (localIPs_outer_loop (range em) ∅) as [He Hn].
  cbn zeta in He, Hn.
  set (localIPs := foldl _ ∅ (range em)) in *.
  assert (Hset : ips_of localIPs nsn = local_ready_ips em nsn).
  { apply set_eq. intros ip.
    rewrite He, elem_of_local_ready_ips, lookup_empty. cbn.
    setoid_rewrite elem_of_range. set_solver. }
  specialize (Hn (map_Forall_empty _)).
  destruct (localIPs !! nsn) as [s|] eqn:Hs; cbn in Hset.
  - subst s. rewrite decide_False; [done|]. by apply (Hn nsn).
  - by rewrite decide_True.
Qed.

(** [LocalReadyEndpoints] maps each recorded service to the size of its
    set. *)
Lemma LocalReadyEndpoints_lookup em nsn :
  LocalReadyEndpoints em !! nsn
  = (λ ips, Z.of_nat (size ips)) <$> getLocalReadyEndpointIPs em !! nsn.
Proof.
  unfold LocalReadyEndpoints.
  set (localIPs := getLocalReadyEndpointIPs em).
  rewrite (foldl_ext_in _
    (λ eps '(k, _), <[k := Z.of_nat (size (ips_of localIPs k))]> eps)).
  - rewrite (foldl_insert_lookup
      (λ k, Z.of_nat (size (ips_of localIPs k)))).
    destruct (localIPs !! nsn) as [s|] eqn:Hs; cbn.
    + by rewrite decide_True by (apply elem_of_range_fst; eauto).
    + rewrite decide_False; [by rewrite lookup_empty|].
      rewrite elem_of_range_fst, Hs. by intros [? ?].
  - intros eps [k v] Hin. apply elem_of_range in Hin. by rewrite Hin.
Qed.
End LocalReady.

Section LocalReadyClaims.
Context `{!RangeOrder} {E : Type} `{!Endpoint E}.
Implicit Types em : gmap ServicePortName (list E).

(** C7.  For every map and every service, the count [LocalReadyEndpoints]
    reports for the service (what indexing the returned map gives: zero for
    a service that is not a key) is the number of distinct IP addresses of
    the endpoints that are ready and local in the lists of the ports of
    that service.  When two different ports of one service each hold one
    ready local endpoint and the two endpoints have the same IP address,
    the service is reported with count 1. *)
Theorem C7_local_ready_counting em (nsn : types.NamespacedName) :
  default 0 (LocalReadyEndpoints em !! nsn)
  = Z.of_nat (size (local_ready_ips em nsn))
  ∧ (∀ ip, ip ∈ local_ready_ips em nsn
           ↔ ∃ svc eps ep, em !! svc = Some eps ∧ ep ∈ eps
                           ∧ NamespacedName svc = nsn ∧ IsReady ep = true
                           ∧ IsLocal ep = true ∧ IP ep = ip)
  ∧ (∀ (p1 p2 : ServicePortName) (ep1 ep2 : E),
       NamespacedName p1 = nsn → NamespacedName p2 = nsn → p1 ≠ p2 →
       IsReady ep1 = true → IsLocal ep1 = true →
       IsReady ep2 = true → IsLocal ep2 = true →
       IP ep1 = IP ep2 →
       LocalReadyEndpoints ({[ p1 := [ep1]; p2 := [ep2] ]}) !! nsn = Some 1).
Proof.
  split; [|split].
  - rewrite LocalReadyEndpoints_lookup, getLocalReadyEndpointIPs_lookup.
    destruct (decide (local_ready_ips em nsn = ∅)) as [->|Hne]; cbn;
      [by rewrite size_empty | done].
  - intros ip. rewrite elem_of_local_ready_ips. naive_solver.
  - intros p1 p2 ep1 ep2 Hp1 Hp2 Hne Hr1 Hl1 Hr2 Hl2 Hip.
    rewrite LocalReadyEndpoints_lookup, getLocalReadyEndpointIPs_lookup.
    assert (Hset : local_ready_ips
                     ({[ p1 := [ep1]; p2 := [ep2] ]}) nsn = {[ IP ep1 ]}).
    { apply set_eq. intros ip.
      rewrite elem_of_local_ready_ips, elem_of_singleton. split.
      - intros (svc & eps & ep & Hsvc & Hep & _ & _ & _ & <-).
        apply lookup_insert_Some in Hsvc as [[<- <-]|[_ Hsvc]].
        + by apply list_elem_of_singleton in Hep as ->.
        + apply lookup_singleton_Some in Hsvc as [<- <-].
          by apply list_elem_of_singleton in Hep as ->.
      - intros ->. exists p1, [ep1], ep1.
        rewrite lookup_insert_eq, list_elem_of_singleton. done. }
    rewrite Hset, decide_False by set_solver.
    cbn. by rewrite size_singleton.
Qed.

(** C10.  Every value of the map [LocalReadyEndpoints] returns is at least
    1, and a service with no local ready endpoint IP is not a key of it. *)
Theorem C10_counts_positive em (nsn : types.NamespacedName) :
  (∀ n, LocalReadyEndpoints em !! nsn = Some n → 1 ≤ n)
  ∧ (size (local_ready_ips em nsn) = 0%nat →
     LocalReadyEndpoints em !! nsn = None).
Proof.
  rewrite LocalReadyEndpoints_lookup, getLocalReadyEndpointIPs_lookup.
  destruct (decide (local_ready_ips em nsn = ∅)) as [Hemp|Hne]; cbn.
  - split; [done|]. done.
  - split.
    + intros n [= <-].
      assert (size (local_ready_ips em nsn) ≠ 0%nat); [|lia].
      intros Hz. by apply size_empty_iff, leibniz_equiv in Hz.
    + intros Hz. by apply size_empty_iff, leibniz_equiv in Hz.
Qed.
End LocalReadyClaims.

(** One pod behind two ports of [web] counts once. *)
Lemma C7_two_ports_count_once :
  LocalReadyEndpoints Fixture.web_two_ports !! Fixture.web = Some 1
  ∧ size (local_ready_ips Fixture.web_two_ports Fixture.web) = 1%nat.
Proof.
  pose proof (C7_local_ready_counting Fixture.web_two_ports Fixture.web)
    as (Hcount & _ & Htwo).
  split.
  - apply (Htwo Fixture.web_http Fixture.web_https Fixture.ep80 Fixture.ep443);
      first [reflexivity | discriminate].
  - vm_compute. reflexivity.
Defined.

(** The count of [web] is positive; [dns], with no local pod, is no key. *)
Lemma C10_web_positive_dns_absent :
  (∃ n, LocalReadyEndpoints Fixture.web_two_ports !! Fixture.web = Some n
        ∧ 1 ≤ n)
  ∧ LocalReadyEndpoints Fixture.dns_X !! Fixture.dns = None.
Proof.
  split.
  - exists 1.
    assert (Hweb : LocalReadyEndpoints Fixture.web_two_ports !! Fixture.web
                   = Some 1) by (vm_compute; reflexivity).
    split; [exact Hweb|].
    exact (proj1 (C10_counts_positive Fixture.web_two_ports Fixture.web)
             1 Hweb).
  - apply (proj2 (C10_counts_positive Fixture.dns_X Fixture.dns)).
    vm_compute. reflexivity.
Defined.

(** ** The change tracker: ingest *)

Section IngestClaims.
Context `{!RangeOrder} {E : Type} `{!Endpoint E}.
Context {Slice Cache : Type} `{!EndpointSliceFields Slice}
        `{!EndpointSliceKeys Slice} `{!EndpointSliceCacheOps E Slice Cache}
        `{!TimeParser}.
Implicit Types ect : @EndpointsChangeTracker E Cache.

(** C3.  [EndpointSliceUpdate] with a nil slice, with either removal flag,
    does not return: the address type is read from the slice before the nil
    check is reached, and the goroutine panics. *)
Theorem C3_nil_update_panics ect (removeSlice : bool) (w : World) :
  EndpointSliceUpdate ect None removeSlice w
  = Panic "invalid memory address or nil pointer dereference".
Proof. reflexivity. Qed.

(** C8, as the code has it.  [EndpointSliceUpdate] with a slice whose
    address type is neither IPv4 nor IPv6 returns false, leaves the tracker
    as it was, writes one entry to the log at verbosity 4, and leaves the
    metrics registry as it was: the update is not counted. *)
Theorem C8_unsupported_address_type ect (slice : Slice) (removeSlice : bool)
    (w : World) :
  AddressType slice ∉ supportedEndpointSliceAddressTypes →
  EndpointSliceUpdate ect (Some slice) removeSlice w
  = Return (false, ect)
      (mkWorld
         (log w ++ [klog.mkEntry (klog.V 4)
                      "EndpointSlice address type not supported by kube-proxy"])
         (registry w)).
Proof.
  intros Hno. unfold EndpointSliceUpdate. unfold_M. cbn.
  by rewrite bool_decide_eq_false_2.
Qed.

(** [getLastChangeTriggerTime] returns: the time the annotation parses to,
    the zero Time when there is no annotation or it does not parse. *)
Lemma getLastChangeTriggerTime_returns (annotations : gmap string string)
    (w : World) :
  ∃ w', getLastChangeTriggerTime annotations w
        = Return
            (match annotations !! v1.EndpointsLastChangeTriggerTime with
             | Some s => default time.zero (Parse_RFC3339Nano s)
             | None => time.zero
             end) w'.
Proof.
  unfold getLastChangeTriggerTime.
  destruct (annotations !! v1.EndpointsLastChangeTriggerTime) as [s|] eqn:Hs.
  - rewrite bool_decide_eq_true_2 by eauto. cbn.
    destruct (Parse_RFC3339Nano s); unfold_M; cbn; eauto.
  - rewrite bool_decide_eq_false_2 by (by intros [? ?]). cbn.
    unfold_M. eauto.
Qed.

(** The loop of [checkoutTriggerTimes], over entries with distinct keys:
    a key of the entries gets its times appended to what the accumulator
    had, every other key of the accumulator is left alone. *)
Lemma checkoutTriggerTimes_loop
    (entries : list (types.NamespacedName * list time.Time)) :
  NoDup entries.*1 →
  ∀ (acc : gmap types.NamespacedName (list time.Time)) k,
    let acc' :=
      foldl (λ (acc : gmap types.NamespacedName (list time.Time)) '(k, v),
               match acc !! k with
               | None => <[k := v]> acc
               | Some prev => <[k := prev ++ v]> acc
               end) acc entries in
    (k ∉ entries.*1 → acc' !! k = acc !! k)
    ∧ (∀ v, (k, v) ∈ entries → acc' !! k = Some (default [] (acc !! k) ++ v)).
Proof.
  induction entries as [|[k0 v0] entries IH]; intros Hnd acc k; cbn.
  - split; [done|]. intros v Hin. by apply elem_of_nil in Hin.
  - cbn in Hnd. pose proof (NoDup_cons_1_1 _ _ Hnd) as Hk0.
    apply NoDup_cons_1_2 in Hnd.
    set (acc1 := match acc !! k0 with
                 | None => <[k0 := v0]> acc
                 | Some prev => <[k0 := prev ++ v0]> acc
                 end).
    assert (Hsame : ∀ j, j ≠ k0 → acc1 !! j = acc !! j).
    { intros j Hj. unfold acc1.
      destruct (acc !! k0); by rewrite lookup_insert_ne. }
    assert (Hk : acc1 !! k0 = Some (default [] (acc !! k0) ++ v0)).
    { unfold acc1. destruct (acc !! k0); by rewrite lookup_insert_eq. }
    destruct (IH Hnd acc1 k) as [IH1 IH2]. cbn zeta in IH1, IH2.
    split.
    + intros Hnot. apply not_elem_of_cons in Hnot as [Hne Hnot].
      by rewrite IH1, Hsame.
    + intros v Hin. apply elem_of_cons in Hin as [[= -> ->]|Hin].
      * by rewrite IH1.
      * rewrite (IH2 v Hin), Hsame; [done|].
        intros ->. apply Hk0. apply list_elem_of_fmap. by exists (k0, v).
Qed.

(** [checkoutTriggerTimes], key by key. *)
Lemma checkoutTriggerTimes_lookup ect
    (acc : gmap types.NamespacedName (list time.Time)) k :
  (checkoutTriggerTimes ect acc).1 !! k
  = match lastChangeTriggerTimes ect !! k with
    | None => acc !! k
    | Some v => Some (default [] (acc !! k) ++ v)
    end.
Proof.
  unfold checkoutTriggerTimes. cbn.
  destruct (checkoutTriggerTimes_loop (range (lastChangeTriggerTimes ect))
              (NoDup_range_fst _) acc k) as [H1 H2].
  cbn zeta in H1, H2.
  destruct (lastChangeTriggerTimes ect !! k) as [v|] eqn:Hk.
  - apply H2. by apply elem_of_range.
  - apply H1. rewrite elem_of_range_fst, Hk. by intros [? ?].
Qed.

(** C6.  Take a tracker built when the clock was not before the zero Time,
    and a call of [EndpointSliceUpdate] that returns true.  The slice has
    an owning-object key.  With the removal flag set, the trigger times
    buffered for that key are deleted, and a checkout of trigger times
    right after leaves that key of the accumulator as it was.  With the
    flag not set, a time [t] is appended to the times of that key when the
    annotation is present, parses to [t], and [t] is strictly after the
    tracker's start time; in every other case (no annotation, a parse
    error, a time at or before the start time) the buffered times stay as
    they were. *)
Theorem C6_trigger_time_effects ect ect' (endpointSlice : option Slice)
    (removeSlice : bool) (w w' : World) :
  0 ≤ trackerStartTime ect →
  EndpointSliceUpdate ect endpointSlice removeSlice w
  = Return (true, ect') w' →
  ∃ slice nn name,
    endpointSlice = Some slice
    ∧ endpointSliceCacheKeys slice = inr (nn, name)
    ∧ (removeSlice = true →
       lastChangeTriggerTimes ect' = delete nn (lastChangeTriggerTimes ect)
       ∧ ∀ acc, (checkoutTriggerTimes ect' acc).1 !! nn = acc !! nn)
    ∧ (removeSlice = false →
       (∀ s t,
          Annotations slice !! v1.EndpointsLastChangeTriggerTime = Some s →
          Parse_RFC3339Nano s = Some t → trackerStartTime ect < t →
          lastChangeTriggerTimes ect'
          = <[nn := default [] (lastChangeTriggerTimes ect !! nn) ++ [t]]>
              (lastChangeTriggerTimes ect))
       ∧ ((¬ ∃ s t,
             Annotations slice !! v1.EndpointsLastChangeTriggerTime = Some s
             ∧ Parse_RFC3339Nano s = Some t ∧ trackerStartTime ect < t) →
          lastChangeTriggerTimes ect' = lastChangeTriggerTimes ect)).
Proof.
  intros Hstart. destruct endpointSlice as [slice|]; [|by intros [=]].
  unfold EndpointSliceUpdate. unfold_M. cbn.
  destruct (bool_decide (AddressType slice ∈ _)); cbn; [|by intros [=]].
  destruct (endpointSliceCacheKeys slice) as [err|[nn name]] eqn:Hkeys;
    [by intros [=]|].
  destruct (updatePending _ slice removeSlice) as [changeNeeded cache].
  destruct changeNeeded; [|by intros [=]].
  destruct removeSlice; cbn.
  - intros [= <- <-]. exists slice, nn, name.
    split; [done|]. split; [done|]. split; [|done].
    intros _. split; [done|]. intros acc.
    rewrite checkoutTriggerTimes_lookup. cbn.
    by rewrite lookup_delete_eq.
  - destruct (getLastChangeTriggerTime_returns (Annotations slice)
                (mkWorld (log w)
                   (metrics.mkRegistry
                      (metrics.EndpointChangesTotal (registry w) + 1)
                      (metrics.EndpointChangesPending (registry w) + 1))))
      as (w1 & ->).
    set (t0 := match Annotations slice !! v1.EndpointsLastChangeTriggerTime
               with
               | Some s => default time.zero (Parse_RFC3339Nano s)
               | None => time.zero
               end).
    intros Hrun. exists slice, nn, name.
    split; [done|]. split; [done|]. split; [done|].
    intros _.
    destruct (negb (time.IsZero t0) && time.After t0 (trackerStartTime ect))
      eqn:Hfresh; injection Hrun as <- <-; cbn.
    + apply andb_true_iff in Hfresh as [_ Hafter].
      split; [|intros Hno; exfalso; apply Hno].
      * intros s t Hs Ht _. unfold t0. by rewrite Hs, Ht.
      * unfold time.After in Hafter. apply Z.ltb_lt in Hafter.
        unfold t0 in *.
        destruct (Annotations slice !! _) as [s|];
          [|unfold time.zero in Hafter; lia].
        destruct (Parse_RFC3339Nano s) as [t|] eqn:Ht;
          [|cbn in Hafter; unfold time.zero in Hafter; lia].
        by exists s, t.
    + split; [|done].
      intros s t Hs Ht Hlt. exfalso.
      unfold t0 in Hfresh. rewrite Hs, Ht in Hfresh. cbn in Hfresh.
      apply andb_false_iff in Hfresh as [Hz|Ha].
      * apply negb_false_iff, Z.eqb_eq in Hz. lia.
      * apply Z.ltb_ge in Ha. unfold time.Time in *. lia.
Qed.
End IngestClaims.

Section IngestSamples.
#[local] Existing Instances Fixture.slice_fields Fixture.slice_keys
  Fixture.scripted_ops Fixture.two_stamps.
Import Fixture.

(** An FQDN slice is turned away, and no collector moves: the registry
    after the call is the registry before it. *)
Lemma C8_fqdn_not_counted :
  ¬ rejected_logged_counted
      (EndpointSliceUpdate tracker0 (Some slice_fqdn) false world0)
      tracker0 world0.
Proof.
  intros (w' & Hrun & _ & Hcounted).
  vm_compute in Hrun. injection Hrun as <-.
  by apply Hcounted.
Qed.

(** The FQDN slice, through the theorem. *)
Lemma C8_fqdn_rejected :
  (AddressType slice_fqdn ∉ supportedEndpointSliceAddressTypes)
  ∧ EndpointSliceUpdate tracker0 (Some slice_fqdn) false world0
    = Return (false, tracker0)
        (mkWorld
           [klog.mkEntry (klog.V 4)
              "EndpointSlice address type not supported by kube-proxy"]
           (metrics.mkRegistry 0 0)).
Proof.
  assert (Hno : AddressType slice_fqdn ∉ supportedEndpointSliceAddressTypes)
    by (vm_compute; set_solver).
  split; [exact Hno|].
  exact (C8_unsupported_address_type tracker0 slice_fqdn false world0 Hno).
Defined.

(** An update of [dns] stamped 2024 reaches a tracker built in 2023: the
    stamp is buffered.  The removal that follows drops it. *)
Lemma C6_stamp_buffered_then_dropped :
  lastChangeTriggerTimes tracker1
  = <[dns := default [] (lastChangeTriggerTimes tracker0 !! dns)
             ++ [new_year_2024]]> (lastChangeTriggerTimes tracker0)
  ∧ lastChangeTriggerTimes tracker2
    = delete dns (lastChangeTriggerTimes tracker1).
Proof.
  split.
  - destruct (C6_trigger_time_effects tracker0 tracker1
                (Some (slice_v4 (stamped "2024-01-01T00:00:00Z"))) false
                world0 world1)
      as (slice & nn & name & [= <-] & Hkeys & _ & Hadd).
    + vm_compute. discriminate.
    + vm_compute. reflexivity.
    + vm_compute in Hkeys. injection Hkeys as <- <-.
      destruct (Hadd eq_refl) as [Happend _].
      apply (Happend "2024-01-01T00:00:00Z" new_year_2024).
      * vm_compute. reflexivity.
      * vm_compute. reflexivity.
      * vm_compute. reflexivity.
  - destruct (C6_trigger_time_effects tracker1 tracker2
                (Some (slice_v4 ∅)) true world1 world2)
      as (slice & nn & name & [= <-] & Hkeys & Hdel & _).
    + vm_compute. discriminate.
    + vm_compute. reflexivity.
    + vm_compute in Hkeys. injection Hkeys as <- <-.
      exact (proj1 (Hdel eq_refl)).
Defined.
End IngestSamples.

(** ** The endpoints map: apply *)

Section UpdateClaims.
Context `{!RangeOrder} {E : Type} `{!Endpoint E}.
Context {Slice Cache : Type} `{!EndpointSliceCacheOps E Slice Cache}.
Implicit Types em : gmap ServicePortName (list E).
Implicit Types ect : @EndpointsChangeTracker E Cache.
Implicit Types change : endpointsChange E.

(** One turn of the loop of [Update] returns, with the change unmerged and
    merged and its key recorded. *)
Lemma Update_body_spec ect nn change em
    (result : UpdateEndpointsMapResult) (w : World) :
  ∃ deleted active w',
    Update_body ect (nn, change) (em, result) w
    = Return (merge (unmerge em (previous change)) (current change),
              mkUpdateEndpointsMapResult ({[nn]} ∪ UpdatedServices result)
                deleted active (LastChangeTriggerTimes result)) w'.
Proof.
  unfold Update_body. unfold_M.
  destruct (processEndpointsMapChange ect) as [observer|].
  - destruct (detectStaleConntrackEntries_spec (previous change)
                (current change) (DeletedUDPEndpoints result)
                (NewlyActiveUDPServices result)
                (observer (previous change) (current change) w))
      as (d & a & w' & -> & _). by exists d, a, w'.
  - destruct (detectStaleConntrackEntries_spec (previous change)
                (current change) (DeletedUDPEndpoints result)
                (NewlyActiveUDPServices result) w)
      as (d & a & w' & -> & _). by exists d, a, w'.
Qed.

(** The loop of [Update] returns, whatever was checked out. *)
Lemma Update_loop_returns ect
    (entries : list (types.NamespacedName * endpointsChange E))
    (st : gmap ServicePortName (list E) * UpdateEndpointsMapResult)
    (w : World) :
  ∃ st' w', forM entries (Update_body ect) st w = Return st' w'.
Proof.
  destruct (forM_inv (λ _ _, True) (Update_body ect) entries st w I)
    as (st' & w' & Hrun & _); [|by eauto].
  intros _ [nn change] [em result] w1 _.
  destruct (Update_body_spec ect nn change em result w1)
    as (d & a & w' & ->). by eauto.
Qed.

(** [Update] with a tracker returns; the map it leaves is the one the loop
    built from the change set the cache handed out. *)
Lemma Update_returns em ect (w : World) :
  ∃ result result' em' w1 w',
    forM (range (cache_checkoutChanges (endpointSliceCache ect)).1)
      (Update_body
         (mkEndpointsChangeTracker (processEndpointsMapChange ect)
            (cache_checkoutChanges (endpointSliceCache ect)).2
            (lastChangeTriggerTimes ect) (trackerStartTime ect)))
      (em, mkUpdateEndpointsMapResult ∅ [] [] ∅) w1
    = Return (em', result') w'
    ∧ Update em (Some ect) w
      = Return (result, em', Some (after_checkout ect)) w'.
Proof.
  unfold Update, checkoutChanges, after_checkout. unfold_M. cbn.
  destruct (cache_checkoutChanges (endpointSliceCache ect))
    as [changes cache]. cbn.
  match goal with
  | |- context [forM ?l ?b ?s ?w1] =>
      destruct (Update_loop_returns
                  (mkEndpointsChangeTracker (processEndpointsMapChange ect)
                     cache (lastChangeTriggerTimes ect)
                     (trackerStartTime ect)) l s w1)
        as ([em' result'] & w' & Hrun)
  end.
  eexists _, result', em', _, w'. split; [exact Hrun|].
  rewrite Hrun. reflexivity.
Qed.

(** [Update] on an empty change set: the map is not touched. *)
Lemma Update_no_change em ect (w : World) :
  (cache_checkoutChanges (endpointSliceCache ect)).1 = ∅ →
  ∃ result w',
    Update em (Some ect) w
    = Return (result, em, Some (after_checkout ect)) w'.
Proof.
  intros Hempty.
  destruct (Update_returns em ect w)
    as (result & result' & em' & w1 & w' & Hloop & Hrun).
  rewrite Hempty, range_empty in Hloop.
  cbn in Hloop. unfold_M. injection Hloop as <- _ _.
  by exists result, w'.
Qed.

(** [Update] on the change of a single owning object: [previous] is
    unmerged, then [current] is merged. *)
Lemma Update_single_change em ect nn change (w : World) :
  (cache_checkoutChanges (endpointSliceCache ect)).1 = {[ nn := change ]} →
  ∃ result w',
    Update em (Some ect) w
    = Return (result, merge (unmerge em (previous change)) (current change),
              Some (after_checkout ect)) w'.
Proof.
  intros Hone.
  destruct (Update_returns em ect w)
    as (result & result' & em' & w1 & w' & Hloop & Hrun).
  rewrite Hone, range_singleton in Hloop.
  cbn [forM] in Hloop. unfold_M.
  match type of Hloop with
  | context [Update_body ?t _ _ _] =>
      destruct (Update_body_spec t nn change em
                  (mkUpdateEndpointsMapResult ∅ [] [] ∅) w1)
        as (d & a & w2 & Hbody)
  end.
  rewrite Hbody in Hloop. injection Hloop as <- _ _.
  by exists result, w'.
Qed.

(** C5.  [Update] with a tracker returns.  When the change set the cache
    hands out is the change of a single owning object, the map after the
    call holds, for every service port of [current], the list [current]
    has for it; has no entry for a service port of [previous] that is not
    in [current]; and has, for a service port in neither, the entry it had.
    When the change set is empty, the map after the call is the map before
    it. *)
Theorem C5_update_postcondition em ect (w : World) :
  ∃ result em' ect' w',
    Update em (Some ect) w = Return (result, em', Some ect') w'
    ∧ ((cache_checkoutChanges (endpointSliceCache ect)).1 = ∅ → em' = em)
    ∧ (∀ nn change,
         (cache_checkoutChanges (endpointSliceCache ect)).1
         = {[ nn := change ]} →
         (∀ svc eps, current change !! svc = Some eps →
                     em' !! svc = Some eps)
         ∧ (∀ svc, is_Some (previous change !! svc) →
                   current change !! svc = None → em' !! svc = None)
         ∧ (∀ svc, previous change !! svc = None →
                   current change !! svc = None → em' !! svc = em !! svc)).
Proof.
  destruct (Update_returns em ect w)
    as (result & _ & em' & _ & w' & _ & Hrun).
  exists result, em', (after_checkout ect), w'.
  split; [exact Hrun|]. split.
  - intros Hempty.
    destruct (Update_no_change em ect w Hempty) as (r & w2 & Hrun').
    rewrite Hrun in Hrun'. by injection Hrun' as _ -> _.
  - intros nn change Hone.
    destruct (Update_single_change em ect nn change w Hone)
      as (r & w2 & Hrun').
    rewrite Hrun in Hrun'. injection Hrun' as _ -> _.
    repeat split.
    + intros svc eps Hcur. by rewrite merge_lookup, Hcur.
    + intros svc [eps Hprev] Hcur.
      by rewrite merge_lookup, Hcur, unmerge_lookup, Hprev.
    + intros svc Hprev Hcur.
      by rewrite merge_lookup, Hcur, unmerge_lookup, Hprev.
Qed.

(** C9.  [Update] with a nil tracker returns the empty result (no updated
    service, no stale endpoint, no newly active service, no trigger time)
    and the map as it was; the process is left as it was. *)
Theorem C9_nil_tracker em (w : World) :
  Update em (None : option (@EndpointsChangeTracker E Cache)) w
  = Return (mkUpdateEndpointsMapResult ∅ [] [] ∅, em, None) w.
Proof. reflexivity. Qed.

(** C4, as the code has it.  Apply, through [Update], the change (nothing,
    [X]) of an owning object and then the change ([X], nothing) of the same
    object.  Both calls return.  After the second, no service port of [X]
    has an entry, and every other service port has the entry it had before
    the first; so the map is back to what it was before the first call when
    no service port of [X] had an entry then. *)
Theorem C4_merge_then_unmerge em ect1 ect2 nn
    (X : gmap ServicePortName (list E)) (w1 w2 : World) :
  (cache_checkoutChanges (endpointSliceCache ect1)).1
  = {[ nn := mkEndpointsChange ∅ X ]} →
  (cache_checkoutChanges (endpointSliceCache ect2)).1
  = {[ nn := mkEndpointsChange X ∅ ]} →
  ∃ r1 em1 t1 w1' r2 em2 t2 w2',
    Update em (Some ect1) w1 = Return (r1, em1, Some t1) w1'
    ∧ Update em1 (Some ect2) w2 = Return (r2, em2, Some t2) w2'
    ∧ (∀ svc, is_Some (X !! svc) → em2 !! svc = None)
    ∧ (∀ svc, X !! svc = None → em2 !! svc = em !! svc)
    ∧ ((∀ svc, is_Some (X !! svc) → em !! svc = None) → em2 = em).
Proof.
  intros Hfirst Hsecond.
  destruct (Update_single_change em ect1 nn _ w1 Hfirst)
    as (r1 & w1' & Hrun1).
  cbn [previous current] in Hrun1.
  set (em1 := merge (unmerge em ∅) X) in *.
  destruct (Update_single_change em1 ect2 nn _ w2 Hsecond)
    as (r2 & w2' & Hrun2).
  cbn [previous current] in Hrun2.
  set (em2 := merge (unmerge em1 X) ∅) in *.
  exists r1, em1, (after_checkout ect1), w1', r2, em2,
    (after_checkout ect2), w2'.
  split; [exact Hrun1|]. split; [exact Hrun2|].
  assert (Hem2 : ∀ svc,
            em2 !! svc = match X !! svc with
                         | Some _ => None
                         | None => em !! svc
                         end).
  { intros svc. unfold em2, em1.
    rewrite merge_lookup, lookup_empty, unmerge_lookup.
    destruct (X !! svc) eqn:HX; [done|].
    by rewrite merge_lookup, HX, unmerge_lookup, lookup_empty. }
  split; [|split].
  - intros svc [eps HX]. by rewrite Hem2, HX.
  - intros svc HX. by rewrite Hem2, HX.
  - intros Habsent. apply map_eq. intros svc. rewrite Hem2.
    destruct (X !! svc) as [eps|] eqn:HX; [|done].
    symmetry. apply Habsent. by eauto.
Qed.
End UpdateClaims.

(** ** The claims on the sample data *)

Section Samples.
#[local] Existing Instances Fixture.slice_fields Fixture.slice_keys
  Fixture.scripted_ops Fixture.two_stamps.
Import Fixture.

(** The DNS pod goes away: its UDP pair is stale, its TCP pair is not.
    The pod stays but stops serving: its UDP pair is stale as well. *)
Lemma C1_udp_pod_removed :
  (∃ stale active w',
     detectStaleConntrackEntries dns_X dns_none [] [] world0
     = Return (stale, active) w'
     ∧ mkServiceEndpoint "10.0.1.5:53" dns_udp ∈ stale
     ∧ mkServiceEndpoint "10.0.1.5:53" dns_tcp ∉ stale)
  ∧ (∃ stale active w',
       detectStaleConntrackEntries dns_X {[ dns_udp := [epX_down] ]} [] []
         world0
       = Return (stale, active) w'
       ∧ mkServiceEndpoint "10.0.1.5:53" dns_udp ∈ stale).
Proof.
  split.
  - destruct (C1_stale_output dns_X dns_none world0)
      as (stale & active & w' & Hrun & Hiff & Hudp).
    exists stale, active, w'. split; [exact Hrun|]. split.
    + apply (Hiff dns_udp [epX] epX); try reflexivity; [by left|].
      intros (n & Hn & _). vm_compute in Hn. by apply elem_of_nil in Hn.
    + intros Hin. apply Hudp in Hin as [Hproto _]. discriminate Hproto.
  - destruct (C1_stale_output dns_X {[ dns_udp := [epX_down] ]} world0)
      as (stale & active & w' & Hrun & Hiff & _).
    exists stale, active, w'. split; [exact Hrun|].
    apply (Hiff dns_udp [epX] epX); try reflexivity; [by left|].
    intros (n & Hn & _ & Hserving). unfold index in Hn.
    rewrite lookup_singleton_eq in Hn. cbn in Hn.
    apply list_elem_of_singleton in Hn as ->. discriminate Hserving.
Defined.

(** A DNS pod arrives where there was none: the UDP port is newly active,
    the TCP port is not. *)
Lemma C2_udp_pod_added :
  ∃ stale active w',
    detectStaleConntrackEntries dns_none dns_Y [] [] world0
    = Return (stale, active) w'
    ∧ dns_udp ∈ active ∧ dns_tcp ∉ active.
Proof.
  destruct (C2_newly_active_output dns_none dns_Y world0)
    as (stale & active & w' & Hrun & Hiff).
  exists stale, active, w'. split; [exact Hrun|]. split.
  - apply Hiff. split; [reflexivity|]. split; [by eexists|].
    split; by vm_compute.
  - intros Hin. apply Hiff in Hin as [Hproto _]. discriminate Hproto.
Defined.

(** The map holds a list for the UDP port of [dns]; the change (nothing,
    [dns_Y]) and then the change ([dns_Y], nothing) leave no entry for it:
    the list it had is not back. *)
Lemma C4_shadowed_entry_not_restored :
  ∃ r1 em1 t1 w1 r2 em2 t2 w2,
    Update dns_X (Some tracker_add_remove) world0
    = Return (r1, em1, Some t1) w1
    ∧ Update em1 (Some t1) w1 = Return (r2, em2, Some t2) w2
    ∧ is_Some (dns_Y !! dns_udp)
    ∧ dns_X !! dns_udp = Some [epX]
    ∧ em2 !! dns_udp = None.
Proof.
  destruct (Update_single_change dns_X tracker_add_remove dns
              (mkEndpointsChange ∅ dns_Y) world0)
    as (r1 & w1 & Hrun1); [reflexivity|].
  destruct (Update_single_change
              (merge (unmerge dns_X ∅) dns_Y)
              (after_checkout tracker_add_remove) dns
              (mkEndpointsChange dns_Y ∅) w1)
    as (r2 & w2 & Hrun2); [reflexivity|].
  cbn [previous current] in Hrun1, Hrun2.
  eexists r1, _, _, w1, r2, _, _, w2.
  split; [exact Hrun1|]. split; [exact Hrun2|].
  assert (HY : dns_Y !! dns_udp = Some [epY]) by reflexivity.
  split; [by eexists|]. split; [reflexivity|].
  by rewrite merge_lookup, lookup_empty, unmerge_lookup, HY.
Qed.

(** The same two changes on a map that has nothing of [dns]. *)
Lemma C4_add_then_remove_dns :
  ∃ r1 em1 t1 w1' r2 t2 w2',
    Update web_two_ports (Some tracker_add_remove) world0
    = Return (r1, em1, Some t1) w1'
    ∧ Update em1 (Some tracker_remove) world0
      = Return (r2, web_two_ports, Some t2) w2'.
Proof.
  destruct (C4_merge_then_unmerge web_two_ports tracker_add_remove
              tracker_remove dns dns_Y world0 world0)
    as (r1 & em1 & t1 & w1' & r2 & em2 & t2 & w2' & Hrun1 & Hrun2
        & _ & _ & Hback); [reflexivity | reflexivity |].
  rewrite Hback in Hrun2.
  - exists r1, em1, t1, w1', r2, t2, w2'. exact (conj Hrun1 Hrun2).
  - intros svc [eps Hsvc]. unfold dns_Y in Hsvc.
    apply lookup_insert_Some in Hsvc as [[<- _]|[_ Hsvc]]; [reflexivity|].
    apply lookup_singleton_Some in Hsvc as [<- _]. reflexivity.
Defined.

(** One change, of [dns], that replaces pod X by pod Y. *)
Lemma C5_dns_pod_replaced :
  ∃ result em' ect' w',
    Update (dns_X ∪ web_two_ports)
      (Some (NewEndpointsChangeTracker mid_2023
               (mkScriptedCache []
                  [ {[ dns := mkEndpointsChange dns_X dns_Y ]} ])
               None)) world0
    = Return (result, em', Some ect') w'
    ∧ em' !! dns_udp = Some [epY]
    ∧ em' !! web_http = Some [ep80].
Proof.
  destruct (C5_update_postcondition (dns_X ∪ web_two_ports)
              (NewEndpointsChangeTracker mid_2023
                 (mkScriptedCache []
                    [ {[ dns := mkEndpointsChange dns_X dns_Y ]} ])
                 None) world0)
    as (result & em' & ect' & w' & Hrun & _ & Hone).
  destruct (Hone dns (mkEndpointsChange dns_X dns_Y))
    as (Hcur & _ & Hframe); [reflexivity|].
  exists result, em', ect', w'. split; [exact Hrun|]. split.
  - apply Hcur. reflexivity.
  - rewrite Hframe; reflexivity.
Defined.
End Samples.
